(** * Device interface (device_intrf.h): busy-flag and enable-count protocol

    Shallow embedding of the C wrappers [DeviceIntrf*] of [device_intrf.h]
    over an explicit handle state.  The handle [struct __device_intrf]
    is split in two: its data fields ([DEVINTRF]) and its table of
    implementation slots ([DEVINTRF_FN]); every slot receives the whole
    handle ([pDev]) and may change any of its fields, so a slot is a
    function on [DEVINTRF].  Each call a wrapper makes into a slot is
    appended to a call log, which is how "invokes the implementation's
    routine" is observed. *)

From Stdlib Require Import ZArith List Bool Lia.
Import ListNotations.
Open Scope Z_scope.

(** ** Data model *)

(** [struct __device_intrf], data fields.  [int] fields are [Z]; the
    event callback pointer is an opaque reference, [None] for NULL. *)
Record DEVINTRF (D : Type) := mkDEVINTRF {
  pDevData : D;
  IntPrio : Z;
  EvtCB : option positive;
  Busy : bool;
  MaxRetry : Z;
  EnCnt : Z
}.
Arguments mkDEVINTRF {D}.
Arguments pDevData {D}.
Arguments IntPrio {D}.
Arguments EvtCB {D}.
Arguments Busy {D}.
Arguments MaxRetry {D}.
Arguments EnCnt {D}.

(** [struct __device_intrf], implementation slots.  [RxData] returns the
    count and the bytes stored into [pBuff]; [Reset] may be NULL. *)
Record DEVINTRF_FN (D : Type) := mkDEVINTRF_FN {
  Disable : DEVINTRF D -> DEVINTRF D;
  Enable : DEVINTRF D -> DEVINTRF D;
  GetRate : DEVINTRF D -> Z * DEVINTRF D;
  SetRate : DEVINTRF D -> Z -> Z * DEVINTRF D;
  StartRx : DEVINTRF D -> Z -> bool * DEVINTRF D;
  RxData : DEVINTRF D -> Z -> Z * list Byte.byte * DEVINTRF D;
  StopRx : DEVINTRF D -> DEVINTRF D;
  StartTx : DEVINTRF D -> Z -> bool * DEVINTRF D;
  TxData : DEVINTRF D -> list Byte.byte -> Z -> Z * DEVINTRF D;
  StopTx : DEVINTRF D -> DEVINTRF D;
  Reset : option (DEVINTRF D -> DEVINTRF D)
}.
Arguments mkDEVINTRF_FN {D}.
Arguments Disable {D}.
Arguments Enable {D}.
Arguments GetRate {D}.
Arguments SetRate {D}.
Arguments StartRx {D}.
Arguments RxData {D}.
Arguments StopRx {D}.
Arguments StartTx {D}.
Arguments TxData {D}.
Arguments StopTx {D}.
Arguments Reset {D}.

(** A call into an implementation slot, as recorded in the log. *)
Inductive Call :=
| CDisable
| CEnable
| CGetRate
| CSetRate (Rate : Z)
| CStartRx (DevAddr : Z)
| CRxData (BuffLen : Z)
| CStopRx
| CStartTx (DevAddr : Z)
| CTxData (DataLen : Z)
| CStopTx
| CReset.

(** The program state: the handle and the log of slot calls. *)
Record World (D : Type) := mkWorld {
  dev : DEVINTRF D;
  calls : list Call
}.
Arguments mkWorld {D}.
Arguments dev {D}.
Arguments calls {D}.

(** ** A state monad over [World] *)

Definition M (D A : Type) := World D -> A * World D.

Definition ret {D A} (a : A) : M D A := fun w => (a, w).
Definition bind {D A B} (m : M D A) (k : A -> M D B) : M D B :=
  fun w => let (a, w') := m w in k a w'.

Notation "x <- m ;; k" := (bind m (fun x => k))
  (at level 61, m at next level, right associativity).
Notation "m ;;; k" := (bind m (fun _ => k))
  (at level 61, right associativity).

(** 32-bit two's complement [int]. *)
Definition INT_MIN : Z := - 2 ^ 31.
Definition INT_MAX : Z := 2 ^ 31 - 1.

(** Wrap an integer into the [int] range, as 32-bit arithmetic does. *)
Definition int_wrap (z : Z) : Z := (z + 2 ^ 31) mod 2 ^ 32 - 2 ^ 31.

Section Primitives.
Context {D : Type}.

Definition set_Busy (b : bool) (d : DEVINTRF D) : DEVINTRF D :=
  mkDEVINTRF (pDevData d) (IntPrio d) (EvtCB d) b (MaxRetry d) (EnCnt d).

Definition set_EnCnt (n : Z) (d : DEVINTRF D) : DEVINTRF D :=
  mkDEVINTRF (pDevData d) (IntPrio d) (EvtCB d) (Busy d) (MaxRetry d) n.

Definition upd_dev (f : DEVINTRF D -> DEVINTRF D) (w : World D) : World D :=
  mkWorld (f (dev w)) (calls w).

(** Modelled from the spec: [AtomicTestAndSet] of [atomic.h] (not in
    the sources), an atomic test-and-set of the busy flag: returns the
    previous value and leaves the flag set. *)
Definition AtomicTestAndSet_Busy : M D bool :=
  fun w => (Busy (dev w), upd_dev (set_Busy true) w).

(** Modelled from the spec: [AtomicClear] of [atomic.h], clears the flag. *)
Definition AtomicClear_Busy : M D unit :=
  fun w => (tt, upd_dev (set_Busy false) w).

(** Modelled from the spec: [AtomicInc] of [atomic.h], an atomic
    increment of the enable count returning the incremented value (the
    spec: "if the pre-increment count was 0" is the test [== 1]).  The
    field is a 32-bit [int], so the increment wraps: INT_MAX + 1 = INT_MIN. *)
Definition AtomicInc_EnCnt : M D Z :=
  fun w => let n := int_wrap (EnCnt (dev w) + 1) in (n, upd_dev (set_EnCnt n) w).

(** Modelled from the spec: [AtomicDec] of [atomic.h], an atomic
    decrement returning the decremented value ("if the post-decrement
    count is < 1"), wrapping on the 32-bit [int]: INT_MIN - 1 = INT_MAX. *)
Definition AtomicDec_EnCnt : M D Z :=
  fun w => let n := int_wrap (EnCnt (dev w) - 1) in (n, upd_dev (set_EnCnt n) w).

(** Invoking a slot: log the call, run the slot on the handle. *)
Definition invoke {A} (c : Call) (f : DEVINTRF D -> A * DEVINTRF D) : M D A :=
  fun w => let (a, d') := f (dev w) in (a, mkWorld d' (calls w ++ [c])).

Definition invoke_ (c : Call) (f : DEVINTRF D -> DEVINTRF D) : M D unit :=
  invoke c (fun d => (tt, f d)).

End Primitives.

(** ** The wrappers of device_intrf.h *)

Section Wrappers.
Context {D : Type} (pDev : DEVINTRF_FN D).

(** [DeviceIntrfDisable] *)
Definition DeviceIntrfDisable : M D unit :=
  n <- AtomicDec_EnCnt ;;
  if n <? 1 then invoke_ CDisable (Disable pDev) else ret tt.

(** [DeviceIntrfEnable] *)
Definition DeviceIntrfEnable : M D unit :=
  n <- AtomicInc_EnCnt ;;
  if n =? 1 then invoke_ CEnable (Enable pDev) else ret tt.

(** [DeviceIntrfGetRate] *)
Definition DeviceIntrfGetRate : M D Z :=
  invoke CGetRate (GetRate pDev).

(** [DeviceIntrfSetRate] *)
Definition DeviceIntrfSetRate (Rate : Z) : M D Z :=
  invoke (CSetRate Rate) (fun d => SetRate pDev d Rate).

(** [DeviceIntrfStartRx] *)
Definition DeviceIntrfStartRx (DevAddr : Z) : M D bool :=
  b <- AtomicTestAndSet_Busy ;;
  if b then ret false else
  retval <- invoke (CStartRx DevAddr) (fun d => StartRx pDev d DevAddr) ;;
  (if Bool.eqb retval false then AtomicClear_Busy else ret tt) ;;;
  ret retval.

(** [DeviceIntrfRxData] *)
Definition DeviceIntrfRxData (BuffLen : Z) : M D (Z * list Byte.byte) :=
  invoke (CRxData BuffLen)
    (fun d => let '(n, buf, d') := RxData pDev d BuffLen in ((n, buf), d')).

(** [DeviceIntrfStopRx] *)
Definition DeviceIntrfStopRx : M D unit :=
  invoke_ CStopRx (StopRx pDev) ;;;
  AtomicClear_Busy.

(** [DeviceIntrfStartTx] *)
Definition DeviceIntrfStartTx (DevAddr : Z) : M D bool :=
  b <- AtomicTestAndSet_Busy ;;
  if b then ret false else
  retval <- invoke (CStartTx DevAddr) (fun d => StartTx pDev d DevAddr) ;;
  (if Bool.eqb retval false then AtomicClear_Busy else ret tt) ;;;
  ret retval.

(** [DeviceIntrfTxData] *)
Definition DeviceIntrfTxData (pBuff : list Byte.byte) (BuffLen : Z) : M D Z :=
  invoke (CTxData BuffLen) (fun d => TxData pDev d pBuff BuffLen).

(** [DeviceIntrfStopTx] *)
Definition DeviceIntrfStopTx : M D unit :=
  invoke_ CStopTx (StopTx pDev) ;;;
  AtomicClear_Busy.

(** [DeviceIntrfReset] *)
Definition DeviceIntrfReset : M D unit :=
  match Reset pDev with
  | Some f => invoke_ CReset f
  | None => ret tt
  end.

End Wrappers.

(** ** Composite transfers (declared in device_intrf.h, defined in a
    source file that is not part of the sources) *)

Section Composites.
Context {D : Type} (pDev : DEVINTRF_FN D).

(** Modelled from the spec: [DeviceIntrfRx], Start, then the data phase,
    then Stop; a failed Start returns 0 with no data or stop phase. *)
Definition DeviceIntrfRx (DevAddr BuffLen : Z) : M D (Z * list Byte.byte) :=
  ok <- DeviceIntrfStartRx pDev DevAddr ;;
  if ok then
    r <- DeviceIntrfRxData pDev BuffLen ;;
    DeviceIntrfStopRx pDev ;;;
    ret r
  else ret (0, []).

(** Modelled from the spec: [DeviceIntrfTx], Start, then the data phase,
    then Stop; a failed Start returns 0 with no data or stop phase. *)
Definition DeviceIntrfTx (DevAddr : Z) (pData : list Byte.byte) (DataLen : Z)
  : M D Z :=
  ok <- DeviceIntrfStartTx pDev DevAddr ;;
  if ok then
    n <- DeviceIntrfTxData pDev pData DataLen ;;
    DeviceIntrfStopTx pDev ;;;
    ret n
  else ret 0.

(** Modelled from the spec: [DeviceIntrfWrite], the address/command
    phase, then the data phase, inside one Start/Stop bracket; returns the
    count of data bytes sent (not counting the address/command). *)
Definition DeviceIntrfWrite (DevAddr : Z) (pAdCmd : list Byte.byte)
  (AdCmdLen : Z) (pData : list Byte.byte) (DataLen : Z) : M D Z :=
  ok <- DeviceIntrfStartTx pDev DevAddr ;;
  if ok then
    DeviceIntrfTxData pDev pAdCmd AdCmdLen ;;;
    n <- DeviceIntrfTxData pDev pData DataLen ;;
    DeviceIntrfStopTx pDev ;;;
    ret n
  else ret 0.

End Composites.

(** ** Sequences of calls on one handle *)

Inductive StartKind := SRx | STx.

Inductive PowerOp := PEnable | PDisable.

Section Sequences.
Context {D : Type} (pDev : DEVINTRF_FN D).

Definition DeviceIntrfStart (k : StartKind) : Z -> M D bool :=
  match k with
  | SRx => DeviceIntrfStartRx pDev
  | STx => DeviceIntrfStartTx pDev
  end.

Definition DeviceIntrfStop (k : StartKind) : M D unit :=
  match k with
  | SRx => DeviceIntrfStopRx pDev
  | STx => DeviceIntrfStopTx pDev
  end.

(** Modelled from the spec: [DeviceIntrfRead], the address/command phase
    (sent with TxData), then the data phase (RxData), inside one
    Start/Stop bracket; the header does not say which Start opens it, so
    the bracket kind [k] is a parameter.  Returns the data phase's result;
    a failed Start returns 0 with no transfer or stop phase. *)
Definition DeviceIntrfRead (k : StartKind) (DevAddr : Z)
  (pAdCmd : list Byte.byte) (AdCmdLen RxLen : Z) : M D (Z * list Byte.byte) :=
  ok <- DeviceIntrfStart k DevAddr ;;
  if ok then
    DeviceIntrfTxData pDev pAdCmd AdCmdLen ;;;
    r <- DeviceIntrfRxData pDev RxLen ;;
    DeviceIntrfStop k ;;;
    ret r
  else ret (0, []).

(** A run of Start calls with no Stop in between; the list of results. *)
Fixpoint run_starts (l : list (StartKind * Z)) : M D (list bool) :=
  match l with
  | [] => ret []
  | (k, a) :: l' =>
      b <- DeviceIntrfStart k a ;;
      bs <- run_starts l' ;;
      ret (b :: bs)
  end.

Definition power_call (p : PowerOp) : M D unit :=
  match p with
  | PEnable => DeviceIntrfEnable pDev
  | PDisable => DeviceIntrfDisable pDev
  end.

(** A run of Enable and Disable calls. *)
Fixpoint run_power (l : list PowerOp) : M D unit :=
  match l with
  | [] => ret tt
  | p :: l' => power_call p ;;; run_power l'
  end.

End Sequences.

(** Power state of the hardware as driven by the slot calls of a log:
    the last of [CEnable] / [CDisable] wins; off before any. *)
Fixpoint hw_after (on : bool) (l : list Call) : bool :=
  match l with
  | [] => on
  | CEnable :: l' => hw_after true l'
  | CDisable :: l' => hw_after false l'
  | _ :: l' => hw_after on l'
  end.

Definition hw_on (l : list Call) : bool := hw_after false l.

Definition is_transfer (c : Call) : bool :=
  match c with CRxData _ | CTxData _ => true | _ => false end.

Definition is_stop (c : Call) : bool :=
  match c with CStopRx | CStopTx => true | _ => false end.

(** Net count of a power sequence: Enables minus Disables. *)
Fixpoint net_power (l : list PowerOp) : Z :=
  match l with
  | [] => 0
  | PEnable :: l' => 1 + net_power l'
  | PDisable :: l' => -1 + net_power l'
  end.

(** No prefix of the sequence has more Disables than Enables. *)
Fixpoint prefix_ok (c : Z) (l : list PowerOp) : bool :=
  match l with
  | [] => true
  | PEnable :: l' => prefix_ok (c + 1) l'
  | PDisable :: l' => (1 <=? c) && prefix_ok (c - 1) l'
  end.

(** Frame conditions on implementation slots. *)
Definition keeps_EnCnt {D} (f : DEVINTRF D -> DEVINTRF D) : Prop :=
  forall d, EnCnt (f d) = EnCnt d.

Definition start_keeps_Busy {D} (f : DEVINTRF D -> Z -> bool * DEVINTRF D)
  : Prop := forall d a, Busy (snd (f d a)) = Busy d.

Definition start_slot {D} (pDev : DEVINTRF_FN D) (k : StartKind)
  : DEVINTRF D -> Z -> bool * DEVINTRF D :=
  match k with SRx => StartRx pDev | STx => StartTx pDev end.

(** The outcome of each call of a run of Starts from a free handle, read
    off the start slots: each call takes the flag and returns its slot's
    result; a failing slot releases the flag, and once a slot has
    succeeded every later call finds the flag set and returns false. *)
Fixpoint starts_ref {D} (pDev : DEVINTRF_FN D) (d : DEVINTRF D)
  (l : list (StartKind * Z)) : list bool :=
  match l with
  | [] => []
  | (k, a) :: l' =>
      let (r, d') := start_slot pDev k (set_Busy true d) a in
      if r then true :: repeat false (length l')
      else false :: starts_ref pDev (set_Busy false d') l'
  end.

(** ** Sample implementations, used at concrete inputs *)

(** A bus whose private data is its current rate; it supports 100 kHz
    and 400 kHz and every operation succeeds. *)
Definition i2c_clamp (Rate : Z) : Z :=
  if Rate <=? 250000 then 100000 else 400000.

Definition set_data {D} (x : D) (d : DEVINTRF D) : DEVINTRF D :=
  mkDEVINTRF x (IntPrio d) (EvtCB d) (Busy d) (MaxRetry d) (EnCnt d).

Definition ops_bus : DEVINTRF_FN Z :=
  mkDEVINTRF_FN
    (fun d => d) (fun d => d)
    (fun d => (pDevData d, d))
    (fun d r => (i2c_clamp r, set_data (i2c_clamp r) d))
    (fun d _ => (true, d))
    (fun d n => (n, repeat Byte.x00 (Z.to_nat n), d))
    (fun d => d)
    (fun d _ => (true, d))
    (fun d _ n => (n, d))
    (fun d => d)
    (Some (fun d => d)).

(** The same bus whose start condition always fails (no acknowledge). *)
Definition ops_nak : DEVINTRF_FN Z :=
  mkDEVINTRF_FN
    (Disable ops_bus) (Enable ops_bus) (GetRate ops_bus) (SetRate ops_bus)
    (fun d _ => (false, d)) (RxData ops_bus) (StopRx ops_bus)
    (fun d _ => (false, d)) (TxData ops_bus) (StopTx ops_bus)
    (Reset ops_bus).

(** The same bus with a single device, at address 0x50: a start at any
    other address is not acknowledged. *)
Definition ops_one_dev : DEVINTRF_FN Z :=
  mkDEVINTRF_FN
    (Disable ops_bus) (Enable ops_bus) (GetRate ops_bus) (SetRate ops_bus)
    (fun d a => (a =? 0x50, d)) (RxData ops_bus) (StopRx ops_bus)
    (fun d a => (a =? 0x50, d)) (TxData ops_bus) (StopTx ops_bus)
    (Reset ops_bus).

(** Initial state: not busy, enable count 0, empty log. *)
Definition w0 : World Z :=
  mkWorld (mkDEVINTRF 100000 6 None false 5 0) [].

(** * Properties *)

Ltac unfold_m :=
  unfold DeviceIntrfStart, DeviceIntrfStartRx, DeviceIntrfStartTx,
    DeviceIntrfStopRx, DeviceIntrfStopTx, DeviceIntrfRxData,
    DeviceIntrfTxData, DeviceIntrfEnable, DeviceIntrfDisable,
    DeviceIntrfSetRate, DeviceIntrfGetRate, DeviceIntrfReset,
    DeviceIntrfRx, DeviceIntrfTx, DeviceIntrfWrite,
    AtomicTestAndSet_Busy, AtomicClear_Busy, AtomicInc_EnCnt,
    AtomicDec_EnCnt, invoke_, invoke, upd_dev, bind, ret in *;
  cbn -[set_Busy set_EnCnt] in *.

Lemma set_Busy_same {D} (d : DEVINTRF D) : set_Busy (Busy d) d = d.
Proof. destruct d; reflexivity. Qed.

Lemma Busy_set_Busy {D} (b : bool) (d : DEVINTRF D) : Busy (set_Busy b d) = b.
Proof. reflexivity. Qed.

Lemma world_eta {D} (w : World D) : mkWorld (dev w) (calls w) = w.
Proof. destruct w; reflexivity. Qed.

(** A Start made while the busy flag is set: returns false, the world is
    untouched and no slot is invoked. *)
Lemma start_when_busy {D} (pDev : DEVINTRF_FN D) k a (w : World D) :
  Busy (dev w) = true -> DeviceIntrfStart pDev k a w = (false, w).
Proof.
  intros HB. destruct w as [[] l]; cbn in HB; subst.
  destruct k; reflexivity.
Qed.

(** A Start on a free handle: the flag is taken, the slot is invoked, and
    the flag is released again when the slot fails. *)
Lemma start_when_free {D} (pDev : DEVINTRF_FN D) k a (w : World D) :
  Busy (dev w) = false ->
  let slot := match k with SRx => StartRx pDev | STx => StartTx pDev end in
  let c := match k with SRx => CStartRx a | STx => CStartTx a end in
  let (r, d') := slot (set_Busy true (dev w)) a in
  DeviceIntrfStart pDev k a w =
    (r, mkWorld (if r then d' else set_Busy false d') (calls w ++ [c])).
Proof.
  intros HB; destruct k; cbv beta iota zeta.
  - destruct (StartRx pDev (set_Busy true (dev w)) a) as [[|] d'] eqn:E;
      unfold_m; rewrite HB; cbn -[set_Busy]; rewrite E; reflexivity.
  - destruct (StartTx pDev (set_Busy true (dev w)) a) as [[|] d'] eqn:E;
      unfold_m; rewrite HB; cbn -[set_Busy]; rewrite E; reflexivity.
Qed.

Lemma stoprx_clears {D} (pDev : DEVINTRF_FN D) (w : World D) :
  Busy (dev (snd (DeviceIntrfStopRx pDev w))) = false.
Proof. reflexivity. Qed.

Example start_twice_bus :
  fst (run_starts ops_bus [(SRx, 0x50); (STx, 0x50); (SRx, 0x51)] w0)
  = [true; false; false].
Proof. reflexivity. Qed.

Example start_twice_nak :
  fst (run_starts ops_nak [(SRx, 0x50); (SRx, 0x50)] w0) = [false; false].
Proof. reflexivity. Qed.

(** C2: whenever DeviceIntrfStartRx or DeviceIntrfStartTx returns false,
    the busy flag on return equals its value before the call (both when
    the flag was already taken and when the slot failed after acquiring
    it). *)
Theorem start_false_restores_busy {D} (pDev : DEVINTRF_FN D)
  (k : StartKind) (a : Z) (w : World D)
  (Hfalse : fst (DeviceIntrfStart pDev k a w) = false) :
  Busy (dev (snd (DeviceIntrfStart pDev k a w))) = Busy (dev w).
Proof.
  destruct (Busy (dev w)) eqn:HB.
  - rewrite (start_when_busy pDev k a w HB). cbn. exact HB.
  - pose proof (start_when_free pDev k a w HB) as E. cbn zeta in E.
    destruct k;
      [destruct (StartRx pDev (set_Busy true (dev w)) a) as [[|] d']
      |destruct (StartTx pDev (set_Busy true (dev w)) a) as [[|] d']];
      rewrite E in *; cbn in *; congruence.
Qed.

(** Witness: a slot that fails (no acknowledge) on a free handle. *)
Lemma start_false_restores_busy_witness :
  fst (DeviceIntrfStart ops_nak SRx 0x50 w0) = false /\
  Busy (dev (snd (DeviceIntrfStart ops_nak SRx 0x50 w0))) = Busy (dev w0).
Proof.
  split; [reflexivity |].
  apply (start_false_restores_busy ops_nak SRx 0x50 w0). reflexivity.
Defined.

(** C4: after DeviceIntrfStartRx returns true and DeviceIntrfStopRx is
    called, the busy flag is false, and a following DeviceIntrfStartRx
    acquires the flag: its test-and-set sees it clear and the start slot
    is invoked. *)
Theorem startrx_stoprx_releases {D} (pDev : DEVINTRF_FN D) (a a' : Z)
  (w : World D)
  (Htrue : fst (DeviceIntrfStartRx pDev a w) = true) :
  let w2 := snd (DeviceIntrfStopRx pDev (snd (DeviceIntrfStartRx pDev a w))) in
  Busy (dev w2) = false /\
  fst (AtomicTestAndSet_Busy w2) = false /\
  calls (snd (DeviceIntrfStartRx pDev a' w2)) = calls w2 ++ [CStartRx a'].
Proof.
  intros w2.
  assert (HB : Busy (dev w2) = false) by apply stoprx_clears.
  split; [exact HB | split; [exact HB |]].
  pose proof (start_when_free pDev SRx a' w2 HB) as E. cbn zeta in E.
  destruct (StartRx pDev (set_Busy true (dev w2)) a') as [r d'].
  change (DeviceIntrfStartRx pDev a') with (DeviceIntrfStart pDev SRx a').
  rewrite E. reflexivity.
Qed.

Lemma startrx_stoprx_releases_witness :
  fst (DeviceIntrfStartRx ops_bus 0x50 w0) = true /\
  Busy (dev (snd (DeviceIntrfStopRx ops_bus
    (snd (DeviceIntrfStartRx ops_bus 0x50 w0))))) = false.
Proof.
  split; [reflexivity |].
  apply (startrx_stoprx_releases ops_bus 0x50 0x50 w0). reflexivity.
Defined.

(** C10: DeviceIntrfStopRx and DeviceIntrfStopTx, from any state
    (whether or not the flag is set and whoever set it), invoke the
    implementation's stop slot and leave the busy flag false. *)
Theorem stop_unconditional {D} (pDev : DEVINTRF_FN D) (w : World D) :
  calls (snd (DeviceIntrfStopRx pDev w)) = calls w ++ [CStopRx] /\
  dev (snd (DeviceIntrfStopRx pDev w)) = set_Busy false (StopRx pDev (dev w)) /\
  Busy (dev (snd (DeviceIntrfStopRx pDev w))) = false /\
  calls (snd (DeviceIntrfStopTx pDev w)) = calls w ++ [CStopTx] /\
  dev (snd (DeviceIntrfStopTx pDev w)) = set_Busy false (StopTx pDev (dev w)) /\
  Busy (dev (snd (DeviceIntrfStopTx pDev w))) = false.
Proof. unfold_m. repeat split. Qed.

(** C8: DeviceIntrfReset invokes the reset slot exactly when it is not
    NULL and does nothing otherwise; it neither tests nor changes the busy
    flag, so its slot calls are the same whatever the flag's value. *)
Theorem reset_null_checked {D} (pDev : DEVINTRF_FN D) (w : World D) :
  DeviceIntrfReset pDev w =
    match Reset pDev with
    | Some f => (tt, mkWorld (f (dev w)) (calls w ++ [CReset]))
    | None => (tt, w)
    end /\
  (forall b : bool,
     calls (snd (DeviceIntrfReset pDev (upd_dev (set_Busy b) w))) =
     calls (snd (DeviceIntrfReset pDev w))).
Proof.
  split.
  - unfold_m. destruct (Reset pDev); reflexivity.
  - intros b. unfold_m. destruct (Reset pDev); reflexivity.
Qed.

(** C9: DeviceIntrfRxData and DeviceIntrfTxData return exactly what the
    data slot returns (its count, which may be short) and leave the handle
    exactly as the slot left it: the wrapper itself touches no field. *)
Theorem data_delegates {D} (pDev : DEVINTRF_FN D) (w : World D)
  (BuffLen : Z) (pBuff : list Byte.byte) :
  DeviceIntrfRxData pDev BuffLen w =
    (let '(n, buf, d') := RxData pDev (dev w) BuffLen in
     ((n, buf), mkWorld d' (calls w ++ [CRxData BuffLen]))) /\
  DeviceIntrfTxData pDev pBuff BuffLen w =
    (let '(n, d') := TxData pDev (dev w) pBuff BuffLen in
     (n, mkWorld d' (calls w ++ [CTxData BuffLen]))).
Proof.
  split; unfold_m.
  - destruct (RxData pDev (dev w) BuffLen) as [[n buf] d']; reflexivity.
  - destruct (TxData pDev (dev w) pBuff BuffLen); reflexivity.
Qed.

Example short_tx_count :
  fst (DeviceIntrfTxData ops_bus [] 10 w0) = 10.
Proof. reflexivity. Qed.

Lemma run_starts_cons {D} (pDev : DEVINTRF_FN D) k a l (w : World D) :
  run_starts pDev ((k, a) :: l) w =
    (let (b, w1) := DeviceIntrfStart pDev k a w in
     let (bs, w2) := run_starts pDev l w1 in (b :: bs, w2)).
Proof. reflexivity. Qed.

(** Once the flag is set, every further Start fails and changes nothing. *)
Lemma run_starts_busy {D} (pDev : DEVINTRF_FN D) l (w : World D) :
  Busy (dev w) = true -> run_starts pDev l w = (repeat false (length l), w).
Proof.
  revert w; induction l as [|[k a] l IH]; intros w HB; [reflexivity |].
  rewrite run_starts_cons, (start_when_busy pDev k a w HB), (IH w HB).
  reflexivity.
Qed.

Lemma count_true_repeat_false n :
  length (filter (fun b : bool => b) (repeat false n)) = 0%nat.
Proof. induction n; cbn; auto. Qed.


Lemma start_free_ok {D} (pDev : DEVINTRF_FN D)
  (HRx : start_keeps_Busy (StartRx pDev))
  (HTx : start_keeps_Busy (StartTx pDev)) k a (w : World D) :
  Busy (dev w) = false ->
  fst (match k with SRx => StartRx pDev | STx => StartTx pDev end
         (set_Busy true (dev w)) a) = true ->
  fst (DeviceIntrfStart pDev k a w) = true /\
  Busy (dev (snd (DeviceIntrfStart pDev k a w))) = true.
Proof.
  intros HB Hok. pose proof (start_when_free pDev k a w HB) as E.
  cbn zeta in E. destruct k.
  - specialize (HRx (set_Busy true (dev w)) a).
    destruct (StartRx pDev (set_Busy true (dev w)) a) as [r d'];
      cbn in *; subst r; rewrite E; cbn; auto.
  - specialize (HTx (set_Busy true (dev w)) a).
    destruct (StartTx pDev (set_Busy true (dev w)) a) as [r d'];
      cbn in *; subst r; rewrite E; cbn; auto.
Qed.

Lemma start_free_call {D} (pDev : DEVINTRF_FN D)
  (HRx : start_keeps_Busy (StartRx pDev))
  (HTx : start_keeps_Busy (StartTx pDev)) k a (w : World D) :
  Busy (dev w) = false ->
  let c := match k with SRx => CStartRx a | STx => CStartTx a end in
  let (r, w1) := DeviceIntrfStart pDev k a w in
  r = fst (start_slot pDev k (set_Busy true (dev w)) a) /\
  Busy (dev w1) = r /\ calls w1 = calls w ++ [c].
Proof.
  intros HB. pose proof (start_when_free pDev k a w HB) as E. cbn zeta in E |- *.
  assert (HK : start_keeps_Busy (start_slot pDev k)) by (destruct k; assumption).
  specialize (HK (set_Busy true (dev w)) a).
  replace (match k with SRx => StartRx pDev | STx => StartTx pDev end)
    with (start_slot pDev k) in E by (destruct k; reflexivity).
  destruct (start_slot pDev k (set_Busy true (dev w)) a) as [[|] d'];
    rewrite E; cbn [fst snd dev calls] in *.
  - rewrite HK. split; [reflexivity | split; reflexivity].
  - split; [reflexivity | split; reflexivity].
Qed.

Lemma run_starts_ref {D} (pDev : DEVINTRF_FN D)
  (HRx : start_keeps_Busy (StartRx pDev))
  (HTx : start_keeps_Busy (StartTx pDev)) l (w : World D) :
  Busy (dev w) = false -> fst (run_starts pDev l w) = starts_ref pDev (dev w) l.
Proof.
  revert w; induction l as [|[k a] l IH]; intros w HB; [reflexivity |].
  rewrite run_starts_cons. cbn [starts_ref].
  pose proof (start_when_free pDev k a w HB) as E. cbn zeta in E.
  assert (HK : start_keeps_Busy (start_slot pDev k)) by (destruct k; assumption).
  specialize (HK (set_Busy true (dev w)) a).
  replace (match k with SRx => StartRx pDev | STx => StartTx pDev end)
    with (start_slot pDev k) in E by (destruct k; reflexivity).
  destruct (start_slot pDev k (set_Busy true (dev w)) a) as [[|] d'];
    rewrite E; cbn [snd] in HK.
  - match goal with |- context [run_starts pDev l ?w1] =>
      rewrite (run_starts_busy pDev l w1 HK) end.
    reflexivity.
  - match goal with |- context [run_starts pDev l ?w1] =>
      specialize (IH w1 eq_refl); destruct (run_starts pDev l w1) as [bs w2] end.
    cbn in IH |- *. rewrite IH. reflexivity.
Qed.

Lemma starts_ref_at_most_one {D} (pDev : DEVINTRF_FN D) l (d : DEVINTRF D) :
  (length (filter (fun b : bool => b) (starts_ref pDev d l)) <= 1)%nat.
Proof.
  revert d; induction l as [|[k a] l IH]; intros d; [cbn; lia |].
  cbn [starts_ref].
  destruct (start_slot pDev k (set_Busy true d) a) as [[|] d']; cbn.
  - rewrite count_true_repeat_false. lia.
  - apply IH.
Qed.

(** C1 (as amended): a Start made while the flag is set returns false
    and leaves the world untouched, without invoking the start slot.  A
    Start made while the flag is clear invokes its start slot once and
    returns the slot's result, keeping the flag when the slot succeeds and
    releasing it when the slot fails.  So, from a free handle whose start
    slots leave the flag as they find it, a run of Start calls with no
    Stop in between returns, call by call, [starts_ref]: false for every
    call whose slot fails, up to the first call whose slot succeeds, which
    returns true, and false for every later call; at most one is true. *)
Theorem start_mutual_exclusion {D} (pDev : DEVINTRF_FN D)
  (HRx : start_keeps_Busy (StartRx pDev))
  (HTx : start_keeps_Busy (StartTx pDev))
  (l : list (StartKind * Z)) (w : World D)
  (Hfree : Busy (dev w) = false) :
  (forall k a (w' : World D),
     Busy (dev w') = true -> DeviceIntrfStart pDev k a w' = (false, w')) /\
  (forall k a (w' : World D),
     Busy (dev w') = false ->
     let c := match k with SRx => CStartRx a | STx => CStartTx a end in
     let (r, w1) := DeviceIntrfStart pDev k a w' in
     r = fst (start_slot pDev k (set_Busy true (dev w')) a) /\
     Busy (dev w1) = r /\ calls w1 = calls w' ++ [c]) /\
  fst (run_starts pDev l w) = starts_ref pDev (dev w) l /\
  (length (filter (fun b : bool => b) (fst (run_starts pDev l w))) <= 1)%nat.
Proof.
  split; [intros; apply start_when_busy; assumption |].
  split; [intros k a w' HB; exact (start_free_call pDev HRx HTx k a w' HB) |].
  rewrite (run_starts_ref pDev HRx HTx l w Hfree).
  split; [reflexivity | apply starts_ref_at_most_one].
Qed.

Lemma start_mutual_exclusion_witness :
  Busy (dev w0) = false /\
  fst (run_starts ops_one_dev [(SRx, 0x51); (STx, 0x50); (SRx, 0x50)] w0)
    = [false; true; false].
Proof.
  split; [reflexivity |].
  destruct (start_mutual_exclusion ops_one_dev
              (fun d a => eq_refl) (fun d a => eq_refl)
              [(SRx, 0x51); (STx, 0x50); (SRx, 0x50)] w0 eq_refl)
    as (_ & _ & Href & _).
  rewrite Href. reflexivity.
Defined.

(** C1 fails as stated: on a free handle whose start condition fails
    (no acknowledge), two Start calls with no Stop between both return
    false, so not exactly one of them returns true. *)
Lemma start_mutual_exclusion_cex :
  let rs := fst (run_starts ops_nak [(SRx, 0x50); (SRx, 0x50)] w0) in
  Busy (dev w0) = false /\ rs = [false; false] /\
  length (filter (fun b : bool => b) rs) <> 1%nat.
Proof. cbv zeta. split; [reflexivity | split; [reflexivity | cbn; discriminate]]. Qed.

(** ** Enable / Disable *)

Lemma run_power_tt {D} (pDev : DEVINTRF_FN D) l (w : World D) :
  run_power pDev l w = (tt, snd (run_power pDev l w)).
Proof. destruct (run_power pDev l w) as [[] w']; reflexivity. Qed.

Lemma power_call_tt {D} (pDev : DEVINTRF_FN D) p (w : World D) :
  power_call pDev p w = (tt, snd (power_call pDev p w)).
Proof. destruct (power_call pDev p w) as [[] w']; reflexivity. Qed.

Lemma run_power_cons {D} (pDev : DEVINTRF_FN D) p l (w : World D) :
  snd (run_power pDev (p :: l) w) =
  snd (run_power pDev l (snd (power_call pDev p w))).
Proof.
  cbn [run_power]. unfold bind. rewrite power_call_tt. reflexivity.
Qed.

Lemma run_power_app {D} (pDev : DEVINTRF_FN D) l1 l2 (w : World D) :
  snd (run_power pDev (l1 ++ l2) w) =
  snd (run_power pDev l2 (snd (run_power pDev l1 w))).
Proof.
  revert w; induction l1 as [|p l1 IH]; intros w; [reflexivity |].
  cbn [app]. rewrite !run_power_cons. apply IH.
Qed.

Lemma run_power_one {D} (pDev : DEVINTRF_FN D) p (w : World D) :
  snd (run_power pDev [p] w) = snd (power_call pDev p w).
Proof. rewrite run_power_cons. reflexivity. Qed.

Lemma power_call_Enable {D} (pDev : DEVINTRF_FN D) (w : World D) :
  power_call pDev PEnable w = DeviceIntrfEnable pDev w.
Proof. reflexivity. Qed.

Lemma power_call_Disable {D} (pDev : DEVINTRF_FN D) (w : World D) :
  power_call pDev PDisable w = DeviceIntrfDisable pDev w.
Proof. reflexivity. Qed.

Lemma int_wrap_id (z : Z) : INT_MIN <= z <= INT_MAX -> int_wrap z = z.
Proof.
  unfold int_wrap, INT_MIN, INT_MAX. intros H.
  change (2 ^ 31) with 2147483648 in *. change (2 ^ 32) with 4294967296.
  rewrite Z.mod_small by lia. lia.
Qed.

Lemma int_wrap_max_succ : int_wrap (INT_MAX + 1) = INT_MIN.
Proof. reflexivity. Qed.

Lemma int_wrap_min_pred : int_wrap (INT_MIN - 1) = INT_MAX.
Proof. reflexivity. Qed.

Ltac int_consts :=
  unfold INT_MIN, INT_MAX in *; change (2 ^ 31) with 2147483648 in *.

(** Every prefix of the sequence keeps the running count, started at
    [c], inside the [int] range. *)
Fixpoint stays_in_int (c : Z) (l : list PowerOp) : bool :=
  match l with
  | [] => true
  | PEnable :: l' => (c + 1 <=? INT_MAX) && stays_in_int (c + 1) l'
  | PDisable :: l' => (INT_MIN <=? c - 1) && stays_in_int (c - 1) l'
  end.

Section Power.
Context {D : Type} (pDev : DEVINTRF_FN D).
Hypothesis HE : keeps_EnCnt (Enable pDev).
Hypothesis HD : keeps_EnCnt (Disable pDev).

Lemma enable_step (w : World D) :
  let w' := snd (DeviceIntrfEnable pDev w) in
  EnCnt (dev w') = int_wrap (EnCnt (dev w) + 1) /\
  calls w' = calls w ++
    (if int_wrap (EnCnt (dev w) + 1) =? 1 then [CEnable] else []).
Proof.
  unfold_m. destruct (int_wrap (EnCnt (dev w) + 1) =? 1); cbn.
  - rewrite HE. split; reflexivity.
  - rewrite app_nil_r. split; reflexivity.
Qed.

Lemma disable_step (w : World D) :
  let w' := snd (DeviceIntrfDisable pDev w) in
  EnCnt (dev w') = int_wrap (EnCnt (dev w) - 1) /\
  calls w' = calls w ++
    (if int_wrap (EnCnt (dev w) - 1) <? 1 then [CDisable] else []).
Proof.
  unfold_m. destruct (int_wrap (EnCnt (dev w) - 1) <? 1); cbn.
  - rewrite HD. split; reflexivity.
  - rewrite app_nil_r. split; reflexivity.
Qed.

(** The steps inside the [int] range. *)
Lemma enable_step_in (w : World D) :
  INT_MIN <= EnCnt (dev w) + 1 <= INT_MAX ->
  let w' := snd (DeviceIntrfEnable pDev w) in
  EnCnt (dev w') = EnCnt (dev w) + 1 /\
  calls w' = calls w ++ (if EnCnt (dev w) + 1 =? 1 then [CEnable] else []).
Proof.
  intros Hr. destruct (enable_step w) as [E C].
  rewrite int_wrap_id in E, C by exact Hr. split; assumption.
Qed.

Lemma disable_step_in (w : World D) :
  INT_MIN <= EnCnt (dev w) - 1 <= INT_MAX ->
  let w' := snd (DeviceIntrfDisable pDev w) in
  EnCnt (dev w') = EnCnt (dev w) - 1 /\
  calls w' = calls w ++ (if EnCnt (dev w) - 1 <? 1 then [CDisable] else []).
Proof.
  intros Hr. destruct (disable_step w) as [E C].
  rewrite int_wrap_id in E, C by exact Hr. split; assumption.
Qed.

(** Enables on a count already at least 1, staying below INT_MAX, only
    raise the count. *)
Lemma enables_from_pos (j : nat) (w : World D) :
  1 <= EnCnt (dev w) -> EnCnt (dev w) + Z.of_nat j <= INT_MAX ->
  let w' := snd (run_power pDev (repeat PEnable j) w) in
  EnCnt (dev w') = EnCnt (dev w) + Z.of_nat j /\ calls w' = calls w.
Proof.
  revert w; induction j as [|j IH]; intros w Hc Hm;
    [cbn; split; [lia | reflexivity] |].
  cbv zeta. cbn [repeat]. rewrite run_power_cons.
  destruct (enable_step_in w) as [E1 C1]; [int_consts; lia |].
  cbn [power_call].
  destruct (IH (snd (DeviceIntrfEnable pDev w))) as [E2 C2]; [lia | lia |].
  rewrite E2, C2, E1, C1.
  replace (EnCnt (dev w) + 1 =? 1) with false by (symmetry; apply Z.eqb_neq; lia).
  rewrite app_nil_r. split; [lia | reflexivity].
Qed.

(** Disables that keep the count at least 1 only lower the count. *)
Lemma disables_above_one (j : nat) (w : World D) :
  1 + Z.of_nat j <= EnCnt (dev w) -> EnCnt (dev w) <= INT_MAX ->
  let w' := snd (run_power pDev (repeat PDisable j) w) in
  EnCnt (dev w') = EnCnt (dev w) - Z.of_nat j /\ calls w' = calls w.
Proof.
  revert w; induction j as [|j IH]; intros w Hc Hm;
    [cbn; split; [lia | reflexivity] |].
  cbv zeta. cbn [repeat]. rewrite run_power_cons.
  destruct (disable_step_in w) as [E1 C1]; [int_consts; lia |].
  cbn [power_call].
  destruct (IH (snd (DeviceIntrfDisable pDev w))) as [E2 C2]; [lia | lia |].
  rewrite E2, C2, E1, C1.
  replace (EnCnt (dev w) - 1 <? 1) with false by (symmetry; apply Z.ltb_ge; lia).
  rewrite app_nil_r. split; [lia | reflexivity].
Qed.

Lemma hw_after_app b l1 l2 :
  hw_after b (l1 ++ l2) = hw_after (hw_after b l1) l2.
Proof.
  revert b; induction l1 as [|c l1 IH]; intros b; [reflexivity |].
  destruct c; cbn; apply IH.
Qed.

(** The power invariant, from any state where it already holds, for a
    sequence whose running count stays inside the [int] range. *)
Lemma power_invariant_gen (l : list PowerOp) (w : World D) :
  INT_MIN <= EnCnt (dev w) <= INT_MAX ->
  hw_on (calls w) = (0 <? EnCnt (dev w)) ->
  stays_in_int (EnCnt (dev w)) l = true ->
  let w' := snd (run_power pDev l w) in
  EnCnt (dev w') = EnCnt (dev w) + net_power l /\
  hw_on (calls w') = (0 <? EnCnt (dev w')) /\
  (0 <= EnCnt (dev w) -> prefix_ok (EnCnt (dev w)) l = true ->
   0 <= EnCnt (dev w')).
Proof.
  revert w; induction l as [|p l IH]; intros w Hb Hinv Hr.
  - cbn. split; [lia | split; [exact Hinv | auto]].
  - cbv zeta. rewrite run_power_cons.
    destruct p; cbn [power_call net_power prefix_ok stays_in_int] in *;
      apply andb_prop in Hr as [Hr1 Hr].
    + apply Z.leb_le in Hr1.
      destruct (enable_step_in w) as [E1 C1]; [int_consts; lia |].
      assert (Hinv1 : hw_on (calls (snd (DeviceIntrfEnable pDev w))) =
                      (0 <? EnCnt (dev (snd (DeviceIntrfEnable pDev w))))).
      { rewrite C1, E1. unfold hw_on. rewrite hw_after_app. fold (hw_on (calls w)).
        rewrite Hinv. destruct (Z.eqb_spec (EnCnt (dev w) + 1) 1); cbn.
        - symmetry. apply Z.ltb_lt. lia.
        - destruct (Z.ltb_spec 0 (EnCnt (dev w)));
            destruct (Z.ltb_spec 0 (EnCnt (dev w) + 1)); auto; lia. }
      rewrite <- E1 in Hr.
      destruct (IH _ ltac:(rewrite E1; int_consts; lia) Hinv1 Hr) as [E2 [H2 P2]].
      split; [rewrite E2, E1; lia | split; [exact H2 |]].
      intros Hc Hp. apply P2; rewrite E1; [lia | exact Hp].
    + apply Z.leb_le in Hr1.
      destruct (disable_step_in w) as [E1 C1]; [int_consts; lia |].
      assert (Hinv1 : hw_on (calls (snd (DeviceIntrfDisable pDev w))) =
                      (0 <? EnCnt (dev (snd (DeviceIntrfDisable pDev w))))).
      { rewrite C1, E1. unfold hw_on. rewrite hw_after_app. fold (hw_on (calls w)).
        rewrite Hinv. destruct (Z.ltb_spec (EnCnt (dev w) - 1) 1); cbn.
        - symmetry. apply Z.ltb_ge. lia.
        - destruct (Z.ltb_spec 0 (EnCnt (dev w)));
            destruct (Z.ltb_spec 0 (EnCnt (dev w) - 1)); auto; lia. }
      rewrite <- E1 in Hr.
      destruct (IH _ ltac:(rewrite E1; int_consts; lia) Hinv1 Hr) as [E2 [H2 P2]].
      split; [rewrite E2, E1; lia | split; [exact H2 |]].
      intros Hc Hp. apply andb_prop in Hp as [Hp1 Hp2].
      apply Z.leb_le in Hp1. apply P2; rewrite E1; [lia | exact Hp2].
Qed.

End Power.

Lemma repeat_snoc {A} (x : A) (k : nat) :
  (1 <= k)%nat -> repeat x k = repeat x (k - 1) ++ [x].
Proof.
  intros Hk. replace k with ((k - 1) + 1)%nat at 1 by lia.
  rewrite repeat_app. reflexivity.
Qed.

(** C3 (as amended): from enable count 0, k calls of DeviceIntrfEnable
    followed by k calls of DeviceIntrfDisable, with 1 <= k <= INT_MAX,
    invoke the Enable slot exactly once, on the first Enable (0 -> 1),
    and the Disable slot exactly once, on the last Disable (1 -> 0); the
    calls in between only move the count. *)
Theorem enable_disable_power_once {D} (pDev : DEVINTRF_FN D)
  (HE : keeps_EnCnt (Enable pDev)) (HD : keeps_EnCnt (Disable pDev))
  (k : nat) (w : World D) (H0 : EnCnt (dev w) = 0) (Hk : (1 <= k)%nat)
  (Hkm : Z.of_nat k <= INT_MAX) :
  let w1 := snd (run_power pDev [PEnable] w) in
  let w2 := snd (run_power pDev (repeat PEnable (k - 1)) w1) in
  let w3 := snd (run_power pDev (repeat PDisable (k - 1)) w2) in
  let w4 := snd (run_power pDev [PDisable] w3) in
  calls w1 = calls w ++ [CEnable] /\
  calls w2 = calls w1 /\
  calls w3 = calls w2 /\
  calls w4 = calls w3 ++ [CDisable] /\
  EnCnt (dev w4) = 0 /\
  snd (run_power pDev (repeat PEnable k ++ repeat PDisable k) w) = w4 /\
  calls w4 = calls w ++ [CEnable; CDisable].
Proof.
  intros w1 w2 w3 w4.
  assert (Hw1 : EnCnt (dev w1) = 1 /\ calls w1 = calls w ++ [CEnable]).
  { unfold w1. rewrite run_power_one. cbn [power_call].
    destruct (enable_step_in pDev HE w) as [E C]; [rewrite H0; int_consts; lia |].
    rewrite E, C, H0. auto. }
  destruct Hw1 as [E1 C1].
  destruct (enables_from_pos pDev HE (k - 1) w1) as [E2 C2];
    [lia | rewrite E1; int_consts; lia |].
  fold w2 in E2, C2.
  destruct (disables_above_one pDev HD (k - 1) w2) as [E3 C3];
    [lia | rewrite E2, E1; int_consts; lia |].
  fold w3 in E3, C3.
  assert (Hw4 : EnCnt (dev w4) = 0 /\ calls w4 = calls w3 ++ [CDisable]).
  { unfold w4. rewrite run_power_one. cbn [power_call].
    destruct (disable_step_in pDev HD w3) as [E C];
      [rewrite E3, E2, E1; int_consts; lia |].
    rewrite E, C.
    replace (EnCnt (dev w3) - 1 <? 1) with true
      by (symmetry; apply Z.ltb_lt; lia).
    split; [lia | reflexivity]. }
  destruct Hw4 as [E4 C4].
  split; [exact C1 |]. split; [exact C2 |]. split; [exact C3 |].
  split; [exact C4 |]. split; [exact E4 |]. split.
  - replace (repeat PEnable k) with ([PEnable] ++ repeat PEnable (k - 1))
      by (destruct k; [lia | cbn; rewrite Nat.sub_0_r; reflexivity]).
    rewrite (repeat_snoc PDisable k Hk).
    rewrite <- app_assoc, !run_power_app. reflexivity.
  - rewrite C4, C3, C2, C1, <- app_assoc. reflexivity.
Qed.

Lemma enable_disable_power_once_witness :
  EnCnt (dev w0) = 0 /\ Z.of_nat 3 <= INT_MAX /\
  calls (snd (run_power ops_bus (repeat PEnable 3 ++ repeat PDisable 3) w0))
    = [CEnable; CDisable].
Proof.
  split; [reflexivity | split; [apply Z.leb_le; reflexivity |]].
  destruct (enable_disable_power_once ops_bus (fun d => eq_refl)
              (fun d => eq_refl) 3 w0 eq_refl ltac:(lia)
              ltac:(apply Z.leb_le; reflexivity))
    as (_ & _ & _ & _ & _ & Hrun & Hcalls).
  rewrite Hrun, Hcalls. reflexivity.
Defined.

(** Wrap-around of the 32-bit count: from count 0, INT_MAX - 1 + 2 = 2^31
    Enables power the hardware on once and leave the count at INT_MIN. *)
Lemma enables_wrap {D} (pDev : DEVINTRF_FN D) (HE : keeps_EnCnt (Enable pDev))
  (N : nat) (HN : Z.of_nat N = INT_MAX - 1) (w : World D)
  (H0 : EnCnt (dev w) = 0) :
  let w' := snd (run_power pDev (repeat PEnable (N + 2)) w) in
  EnCnt (dev w') = INT_MIN /\ calls w' = calls w ++ [CEnable].
Proof.
  cbv zeta.
  replace (N + 2)%nat with (1 + N + 1)%nat by lia.
  rewrite !repeat_app, !run_power_app. cbn [repeat].
  set (w1 := snd (run_power pDev [PEnable] w)).
  assert (H1 : EnCnt (dev w1) = 1 /\ calls w1 = calls w ++ [CEnable]).
  { unfold w1. rewrite run_power_one. cbn [power_call].
    destruct (enable_step_in pDev HE w) as [E C]; [rewrite H0; int_consts; lia |].
    rewrite E, C, H0. split; reflexivity. }
  destruct H1 as [E1 C1].
  destruct (enables_from_pos pDev HE N w1) as [E2 C2];
    [lia | rewrite E1, HN; int_consts; lia |].
  set (w2 := snd (run_power pDev (repeat PEnable N) w1)) in *.
  rewrite run_power_one. cbn [power_call].
  destruct (enable_step pDev HE w2) as [E C].
  rewrite E2, E1, HN in E, C.
  replace (1 + (INT_MAX - 1) + 1) with (INT_MAX + 1) in E, C by lia.
  rewrite int_wrap_max_succ in E, C.
  change (INT_MIN =? 1) with false in C.
  rewrite E, C, C2, C1, app_nil_r. split; reflexivity.
Qed.

(** Continuing: one more Enable (2^31 + 1 in all), then as many
    Disables: the first Disable already powers the hardware off (count
    INT_MIN), the second wraps the count to INT_MAX, and the last one
    (1 -> 0) powers it off again. *)
Lemma power_wrap_twice {D} (pDev : DEVINTRF_FN D)
  (HE : keeps_EnCnt (Enable pDev)) (HD : keeps_EnCnt (Disable pDev))
  (N : nat) (HN : Z.of_nat N = INT_MAX - 1) (w : World D)
  (H0 : EnCnt (dev w) = 0) :
  calls (snd (run_power pDev (repeat PEnable (N + 3) ++ repeat PDisable (N + 3)) w))
  = calls w ++ [CEnable; CDisable; CDisable].
Proof.
  assert (R1 : repeat PEnable (N + 3) = repeat PEnable (N + 2) ++ [PEnable])
    by (replace (N + 3)%nat with (N + 2 + 1)%nat by lia;
        rewrite repeat_app; reflexivity).
  assert (R2 : repeat PDisable (N + 3) =
               [PDisable] ++ [PDisable] ++ repeat PDisable N ++ [PDisable])
    by (replace (N + 3)%nat with (1 + 1 + N + 1)%nat by lia;
        rewrite !repeat_app, <- !app_assoc; reflexivity).
  rewrite R1, R2, <- app_assoc, !run_power_app, !run_power_one.
  destruct (enables_wrap pDev HE N HN w H0) as [Ea Ca].
  remember (snd (run_power pDev (repeat PEnable (N + 2)) w)) as wa eqn:Hx; clear Hx.
  destruct (enable_step_in pDev HE wa) as [Eb Cb]; [rewrite Ea; int_consts; lia |].
  remember (snd (power_call pDev PEnable wa)) as wb eqn:Hwb.
  rewrite power_call_Enable in Hwb. rewrite <- Hwb in Eb, Cb. clear Hwb.
  rewrite Ea in Eb, Cb. change (INT_MIN + 1 =? 1) with false in Cb.
  destruct (disable_step pDev HD wb) as [Ec Cc].
  remember (snd (power_call pDev PDisable wb)) as wc eqn:Hwc.
  rewrite power_call_Disable in Hwc. rewrite <- Hwc in Ec, Cc. clear Hwc.
  rewrite Eb in Ec, Cc.
  change (int_wrap (INT_MIN + 1 - 1)) with INT_MIN in Ec, Cc.
  change (INT_MIN <? 1) with true in Cc.
  destruct (disable_step pDev HD wc) as [Ed Cd].
  remember (snd (power_call pDev PDisable wc)) as wd eqn:Hwd.
  rewrite power_call_Disable in Hwd. rewrite <- Hwd in Ed, Cd. clear Hwd.
  rewrite Ec, int_wrap_min_pred in Ed, Cd.
  change (INT_MAX <? 1) with false in Cd.
  destruct (disables_above_one pDev HD N wd) as [Ee Ce];
    [rewrite Ed, HN; int_consts; lia | rewrite Ed; lia |].
  remember (snd (run_power pDev (repeat PDisable N) wd)) as we eqn:Hx; clear Hx.
  rewrite Ed, HN in Ee.
  destruct (disable_step_in pDev HD we) as [Ef Cf]; [rewrite Ee; int_consts; lia |].
  remember (snd (power_call pDev PDisable we)) as wf eqn:Hwf.
  rewrite power_call_Disable in Hwf. rewrite <- Hwf in Ef, Cf. clear Hwf.
  rewrite Ee in Cf. replace (INT_MAX - (INT_MAX - 1) - 1) with 0 in Cf by lia.
  change (0 <? 1) with true in Cf.
  rewrite Cf, Ce, Cd, Cc, Cb, Ca, <- !app_assoc. reflexivity.
Qed.

(** C3 fails beyond INT_MAX: with k = 2^31 + 1 the 32-bit count wraps,
    and from the initial state the k Enables and k Disables invoke the
    Disable slot twice, first on the first Disable. *)
Lemma enable_disable_power_once_cex :
  let k := Z.to_nat (2 ^ 31 + 1) in
  EnCnt (dev w0) = 0 /\
  calls (snd (run_power ops_bus (repeat PEnable k ++ repeat PDisable k) w0))
  = [CEnable; CDisable; CDisable].
Proof.
  cbv zeta. split; [reflexivity |].
  assert (Hk : Z.to_nat (2 ^ 31 + 1) = (Z.to_nat (INT_MAX - 1) + 3)%nat).
  { apply Nat2Z.inj. rewrite Nat2Z.inj_add, !Z2Nat.id; int_consts; lia. }
  rewrite Hk.
  pose proof (power_wrap_twice ops_bus (fun d => eq_refl) (fun d => eq_refl)
                (Z.to_nat (INT_MAX - 1))
                ltac:(rewrite Z2Nat.id; int_consts; lia) w0 eq_refl) as H.
  rewrite H. reflexivity.
Qed.

(** C5 (as amended): from the initial state (count 0, hardware off),
    after any sequence of DeviceIntrfEnable / DeviceIntrfDisable calls the
    hardware is on exactly when the count is > 0; the count is the number
    of Enables minus the number of Disables, so it is >= 0 whenever no
    prefix of the sequence has more Disables than Enables (Disable has no
    guard against going below 0). *)
Theorem power_state_tracks_count {D} (pDev : DEVINTRF_FN D)
  (HE : keeps_EnCnt (Enable pDev)) (HD : keeps_EnCnt (Disable pDev))
  (l : list PowerOp) (w : World D)
  (H0 : EnCnt (dev w) = 0) (Hoff : hw_on (calls w) = false)
  (Hr : stays_in_int 0 l = true) :
  let w' := snd (run_power pDev l w) in
  EnCnt (dev w') = net_power l /\
  hw_on (calls w') = (0 <? EnCnt (dev w')) /\
  (prefix_ok 0 l = true -> 0 <= EnCnt (dev w')).
Proof.
  assert (Hinv : hw_on (calls w) = (0 <? EnCnt (dev w))) by (rewrite Hoff, H0; reflexivity).
  destruct (power_invariant_gen pDev HE HD l w
              ltac:(rewrite H0; int_consts; lia) Hinv
              ltac:(rewrite H0; exact Hr)) as [E [Hh P]].
  rewrite H0 in E, P. cbv zeta.
  split; [lia | split; [exact Hh | intros Hp; apply P; [lia | exact Hp]]].
Qed.

Lemma power_state_tracks_count_witness :
  EnCnt (dev w0) = 0 /\ hw_on (calls w0) = false /\
  stays_in_int 0 [PEnable; PEnable; PDisable] = true /\
  hw_on (calls (snd (run_power ops_bus [PEnable; PEnable; PDisable] w0)))
    = (0 <? EnCnt (dev (snd (run_power ops_bus [PEnable; PEnable; PDisable] w0)))).
Proof.
  split; [reflexivity | split; [reflexivity | split; [reflexivity |]]].
  apply (power_state_tracks_count ops_bus (fun d => eq_refl) (fun d => eq_refl)
           [PEnable; PEnable; PDisable] w0 eq_refl eq_refl eq_refl).
Defined.

(** C5 fails as stated: one DeviceIntrfDisable from the initial state
    leaves the enable count at -1; and after 2^31 DeviceIntrfEnable calls
    the 32-bit count has wrapped to INT_MIN while the hardware is on. *)
Lemma power_count_nonneg_cex :
  EnCnt (dev w0) = 0 /\
  EnCnt (dev (snd (run_power ops_bus [PDisable] w0))) = -1 /\
  ~ (forall l, 0 <= EnCnt (dev (snd (run_power ops_bus l w0)))) /\
  (let w' := snd (run_power ops_bus (repeat PEnable (Z.to_nat (2 ^ 31))) w0) in
   EnCnt (dev w') = INT_MIN /\ hw_on (calls w') = true).
Proof.
  split; [reflexivity | split; [reflexivity | split]].
  - intros H. specialize (H [PDisable]). cbn in H. lia.
  - assert (Hk : Z.to_nat (2 ^ 31) = (Z.to_nat (INT_MAX - 1) + 2)%nat).
    { apply Nat2Z.inj. rewrite Nat2Z.inj_add, !Z2Nat.id; int_consts; lia. }
    cbv zeta. rewrite Hk.
    destruct (enables_wrap ops_bus (fun d => eq_refl) (Z.to_nat (INT_MAX - 1))
                ltac:(rewrite Z2Nat.id; int_consts; lia) w0 eq_refl) as [E C].
    rewrite E, C. split; reflexivity.
Qed.

(** ** Composite transfers *)

Lemma start_calls {D} (pDev : DEVINTRF_FN D) k a (w : World D) :
  let c := match k with SRx => CStartRx a | STx => CStartTx a end in
  calls (snd (DeviceIntrfStart pDev k a w)) = calls w \/
  calls (snd (DeviceIntrfStart pDev k a w)) = calls w ++ [c].
Proof.
  cbv zeta. destruct (Busy (dev w)) eqn:HB.
  - left. rewrite (start_when_busy pDev k a w HB). reflexivity.
  - right. pose proof (start_when_free pDev k a w HB) as E. cbn zeta in E.
    destruct k;
      [destruct (StartRx pDev (set_Busy true (dev w)) a)
      |destruct (StartTx pDev (set_Busy true (dev w)) a)];
      rewrite E; reflexivity.
Qed.

Ltac split_slots :=
  repeat match goal with
  | |- context [TxData ?p ?d ?b ?n] => destruct (TxData p d b n)
  | |- context [RxData ?p ?d ?n] => destruct (RxData p d n) as [[? ?] ?]
  end.

Lemma write_unfold {D} (pDev : DEVINTRF_FN D) a pAdCmd AdCmdLen pData DataLen
  (w : World D) :
  DeviceIntrfWrite pDev a pAdCmd AdCmdLen pData DataLen w =
  (let (ok, w1) := DeviceIntrfStartTx pDev a w in
   (if ok then
      DeviceIntrfTxData pDev pAdCmd AdCmdLen ;;;
      n <- DeviceIntrfTxData pDev pData DataLen ;;
      DeviceIntrfStopTx pDev ;;;
      ret n
    else ret 0) w1).
Proof. reflexivity. Qed.

Lemma tx_unfold {D} (pDev : DEVINTRF_FN D) a pData DataLen (w : World D) :
  DeviceIntrfTx pDev a pData DataLen w =
  (let (ok, w1) := DeviceIntrfStartTx pDev a w in
   (if ok then
      n <- DeviceIntrfTxData pDev pData DataLen ;;
      DeviceIntrfStopTx pDev ;;;
      ret n
    else ret 0) w1).
Proof. reflexivity. Qed.

Lemma rx_unfold {D} (pDev : DEVINTRF_FN D) a BuffLen (w : World D) :
  DeviceIntrfRx pDev a BuffLen w =
  (let (ok, w1) := DeviceIntrfStartRx pDev a w in
   (if ok then
      r <- DeviceIntrfRxData pDev BuffLen ;;
      DeviceIntrfStopRx pDev ;;;
      ret r
    else ret (0, [])) w1).
Proof. reflexivity. Qed.

Lemma read_unfold {D} (pDev : DEVINTRF_FN D) k a pAdCmd AdCmdLen RxLen
  (w : World D) :
  DeviceIntrfRead pDev k a pAdCmd AdCmdLen RxLen w =
  (let (ok, w1) := DeviceIntrfStart pDev k a w in
   (if ok then
      DeviceIntrfTxData pDev pAdCmd AdCmdLen ;;;
      r <- DeviceIntrfRxData pDev RxLen ;;
      DeviceIntrfStop pDev k ;;;
      ret r
    else ret (0, [])) w1).
Proof. reflexivity. Qed.

(** C6 (as amended): DeviceIntrfWrite sends the address/command phase
    and then the data phase, i.e. exactly two transfer phases followed by
    the Stop, when its Start succeeds; DeviceIntrfTx and DeviceIntrfRx
    perform exactly one data phase followed by the Stop.  When the Start
    fails, each of them returns 0 and makes no transfer and no stop call:
    the only slot call is the failed start slot itself (or none at all
    when the flag was already set).  DeviceIntrfRead, whichever Start
    kind [k] opens its bracket, sends the address/command phase and then
    the data phase, exactly two transfer phases followed by the matching
    Stop, when its Start succeeds, and returns 0 with no transfer and no
    stop call when it fails. *)
Theorem composite_phases {D} (pDev : DEVINTRF_FN D) (a : Z)
  (pAdCmd pData : list Byte.byte) (AdCmdLen DataLen BuffLen : Z)
  (w : World D) :
  let okT := fst (DeviceIntrfStartTx pDev a w) in
  let wT := snd (DeviceIntrfStartTx pDev a w) in
  let okR := fst (DeviceIntrfStartRx pDev a w) in
  let wR := snd (DeviceIntrfStartRx pDev a w) in
  (calls wT = calls w \/ calls wT = calls w ++ [CStartTx a]) /\
  (calls wR = calls w \/ calls wR = calls w ++ [CStartRx a]) /\
  (okT = true ->
     calls (snd (DeviceIntrfWrite pDev a pAdCmd AdCmdLen pData DataLen w)) =
       calls wT ++ [CTxData AdCmdLen; CTxData DataLen; CStopTx] /\
     calls (snd (DeviceIntrfTx pDev a pData DataLen w)) =
       calls wT ++ [CTxData DataLen; CStopTx]) /\
  (okR = true ->
     calls (snd (DeviceIntrfRx pDev a BuffLen w)) =
       calls wR ++ [CRxData BuffLen; CStopRx]) /\
  (okT = false ->
     DeviceIntrfWrite pDev a pAdCmd AdCmdLen pData DataLen w = (0, wT) /\
     DeviceIntrfTx pDev a pData DataLen w = (0, wT)) /\
  (okR = false -> DeviceIntrfRx pDev a BuffLen w = ((0, []), wR)) /\
  (forall k,
     let okS := fst (DeviceIntrfStart pDev k a w) in
     let wS := snd (DeviceIntrfStart pDev k a w) in
     let stop := match k with SRx => CStopRx | STx => CStopTx end in
     (okS = true ->
        calls (snd (DeviceIntrfRead pDev k a pAdCmd AdCmdLen BuffLen w)) =
          calls wS ++ [CTxData AdCmdLen; CRxData BuffLen; stop]) /\
     (okS = false ->
        DeviceIntrfRead pDev k a pAdCmd AdCmdLen BuffLen w = ((0, []), wS))).
Proof.
  cbv zeta.
  assert (HRead : forall k,
     (fst (DeviceIntrfStart pDev k a w) = true ->
        calls (snd (DeviceIntrfRead pDev k a pAdCmd AdCmdLen BuffLen w)) =
          calls (snd (DeviceIntrfStart pDev k a w)) ++
          [CTxData AdCmdLen; CRxData BuffLen;
           match k with SRx => CStopRx | STx => CStopTx end]) /\
     (fst (DeviceIntrfStart pDev k a w) = false ->
        DeviceIntrfRead pDev k a pAdCmd AdCmdLen BuffLen w =
          ((0, []), snd (DeviceIntrfStart pDev k a w)))).
  { intros k. rewrite read_unfold.
    destruct (DeviceIntrfStart pDev k a w) as [[|] wS]; cbn [fst snd];
      split; try discriminate; intros _; [| reflexivity].
    destruct k;
    unfold DeviceIntrfStop, DeviceIntrfTxData, DeviceIntrfRxData,
      DeviceIntrfStopTx, DeviceIntrfStopRx, invoke_, invoke, AtomicClear_Busy,
      upd_dev, bind, ret;
    cbn -[set_Busy]; split_slots; cbn; rewrite <- ?app_assoc; reflexivity. }
  split; [exact (start_calls pDev STx a w) |].
  split; [exact (start_calls pDev SRx a w) |].
  split; [| split; [| split; [| split; [| exact HRead]]]].
  all: clear HRead.
  all: rewrite ?write_unfold, ?tx_unfold, ?rx_unfold.
  all: destruct (DeviceIntrfStartTx pDev a w) as [[|] wT];
  destruct (DeviceIntrfStartRx pDev a w) as [[|] wR]; cbn [fst snd];
  repeat split; try discriminate;
  unfold DeviceIntrfTxData, DeviceIntrfRxData, DeviceIntrfStopTx,
    DeviceIntrfStopRx, invoke_, invoke, AtomicClear_Busy, upd_dev, bind, ret;
  cbn -[set_Busy]; split_slots; cbn; rewrite <- ?app_assoc; reflexivity.
Qed.

(** C6 fails as stated for DeviceIntrfTx: when its Start succeeds it
    performs one transfer phase, not two. *)
Lemma composite_phases_cex :
  calls (snd (DeviceIntrfTx ops_bus 0x50 [Byte.x01; Byte.x02] 2 w0)) =
    [CStartTx 0x50; CTxData 2; CStopTx] /\
  length (filter is_transfer
    (calls (snd (DeviceIntrfTx ops_bus 0x50 [Byte.x01; Byte.x02] 2 w0)))) = 1%nat.
Proof. split; reflexivity. Qed.

Example write_phases :
  calls (snd (DeviceIntrfWrite ops_bus 0x50 [Byte.x10] 1 [Byte.x01] 1 w0)) =
    [CStartTx 0x50; CTxData 1; CTxData 1; CStopTx].
Proof. reflexivity. Qed.

Example read_phases :
  calls (snd (DeviceIntrfRead ops_bus STx 0x50 [Byte.x10] 1 4 w0)) =
    [CStartTx 0x50; CTxData 1; CRxData 4; CStopTx] /\
  fst (DeviceIntrfRead ops_nak SRx 0x50 [Byte.x10] 1 4 w0) = (0, []).
Proof. split; reflexivity. Qed.

Example write_nak :
  DeviceIntrfWrite ops_nak 0x50 [Byte.x10] 1 [Byte.x01] 1 w0 =
    (0, mkWorld (dev w0) [CStartTx 0x50]).
Proof. reflexivity. Qed.

(** ** Rate *)

Section RateContract.
Context {D : Type} (pDev : DEVINTRF_FN D).
(** The rate the implementation currently runs at, and the rates it can
    achieve. *)
Variable rate_of : DEVINTRF D -> Z.
Variable Achievable : Z -> Prop.
(** The documented contract of the SetRate and GetRate slots: SetRate
    applies and returns the achievable rate closest to the request,
    GetRate returns the rate in force. *)
Hypothesis set_applies :
  forall d r, rate_of (snd (SetRate pDev d r)) = fst (SetRate pDev d r).
Hypothesis set_nearest :
  forall d r, Achievable (fst (SetRate pDev d r)) /\
    forall r', Achievable r' ->
      Z.abs (fst (SetRate pDev d r) - r) <= Z.abs (r' - r).
Hypothesis get_reads : forall d, fst (GetRate pDev d) = rate_of d.

(** C7: DeviceIntrfSetRate returns exactly the rate R the implementation
    returns, which (under the slots' contract) is an achievable rate
    nearest to the request, and a DeviceIntrfGetRate right after it
    returns exactly R. *)
Theorem setrate_getrate_roundtrip (r : Z) (w : World D) :
  let R := fst (DeviceIntrfSetRate pDev r w) in
  let w1 := snd (DeviceIntrfSetRate pDev r w) in
  R = fst (SetRate pDev (dev w) r) /\
  Achievable R /\
  (forall r', Achievable r' -> Z.abs (R - r) <= Z.abs (r' - r)) /\
  fst (DeviceIntrfGetRate pDev w1) = R.
Proof.
  cbv zeta. unfold_m.
  pose proof (set_applies (dev w) r) as HA.
  pose proof (set_nearest (dev w) r) as [HN HC].
  destruct (SetRate pDev (dev w) r) as [R d'] eqn:ES. cbn in *.
  pose proof (get_reads d') as HG.
  destruct (GetRate pDev d') as [g d'']. cbn in *.
  split; [reflexivity | split; [exact HN | split; [exact HC | congruence]]].
Qed.

End RateContract.

Lemma setrate_getrate_roundtrip_witness :
  fst (DeviceIntrfSetRate ops_bus 100 w0) = 100000 /\
  fst (DeviceIntrfGetRate ops_bus (snd (DeviceIntrfSetRate ops_bus 100 w0)))
    = fst (DeviceIntrfSetRate ops_bus 100 w0).
Proof.
  split; [reflexivity |].
  refine (proj2 (proj2 (proj2 (setrate_getrate_roundtrip ops_bus pDevData
            (fun r => r = 100000 \/ r = 400000) _ _ _ 100 w0)))).
  - intros d r; reflexivity.
  - intros d r. cbn. unfold i2c_clamp.
    destruct (Z.leb_spec r 250000); split; [lia | intros r' [-> | ->]; lia
                                           | lia | intros r' [-> | ->]; lia].
  - intros d; reflexivity.
Defined.

(** * Further properties of the wrappers *)

Lemma stoptx_clears {D} (pDev : DEVINTRF_FN D) (w : World D) :
  Busy (dev (snd (DeviceIntrfStopTx pDev w))) = false.
Proof. reflexivity. Qed.

(** The Tx bracket: after DeviceIntrfStartTx returns true and
    DeviceIntrfStopTx is called, the flag is clear and the next
    DeviceIntrfStartTx invokes the start slot. *)
Theorem starttx_stoptx_releases {D} (pDev : DEVINTRF_FN D) (a a' : Z)
  (w : World D)
  (Htrue : fst (DeviceIntrfStartTx pDev a w) = true) :
  let w2 := snd (DeviceIntrfStopTx pDev (snd (DeviceIntrfStartTx pDev a w))) in
  Busy (dev w2) = false /\
  calls (snd (DeviceIntrfStartTx pDev a' w2)) = calls w2 ++ [CStartTx a'].
Proof.
  intros w2.
  assert (HB : Busy (dev w2) = false) by apply stoptx_clears.
  split; [exact HB |].
  pose proof (start_when_free pDev STx a' w2 HB) as E. cbn zeta in E.
  destruct (StartTx pDev (set_Busy true (dev w2)) a') as [r d'].
  change (DeviceIntrfStartTx pDev a') with (DeviceIntrfStart pDev STx a').
  rewrite E. reflexivity.
Qed.

Lemma starttx_stoptx_releases_witness :
  fst (DeviceIntrfStartTx ops_bus 0x50 w0) = true /\
  Busy (dev (snd (DeviceIntrfStopTx ops_bus
    (snd (DeviceIntrfStartTx ops_bus 0x50 w0))))) = false.
Proof.
  split; [reflexivity |].
  apply (starttx_stoptx_releases ops_bus 0x50 0x50 w0). reflexivity.
Defined.



(** A bus whose start slots do their own check-and-set of the busy flag,
    as the slot documentation asks. *)
Definition ops_selfcheck : DEVINTRF_FN Z :=
  mkDEVINTRF_FN
    (Disable ops_bus) (Enable ops_bus) (GetRate ops_bus) (SetRate ops_bus)
    (fun d _ => if Busy d then (false, d) else (true, set_Busy true d))
    (RxData ops_bus) (StopRx ops_bus)
    (fun d _ => if Busy d then (false, d) else (true, set_Busy true d))
    (TxData ops_bus) (StopTx ops_bus) (Reset ops_bus).

(** The wrapper sets the flag before it invokes the start slot, so a
    start slot that itself refuses to start while the flag is set (the
    check-and-set its documentation asks for) makes DeviceIntrfStartRx and
    DeviceIntrfStartTx return false in every state. *)
Theorem self_checking_start_never_succeeds {D} (pDev : DEVINTRF_FN D)
  (HRx : forall d a, Busy d = true -> fst (StartRx pDev d a) = false)
  (HTx : forall d a, Busy d = true -> fst (StartTx pDev d a) = false)
  (k : StartKind) (a : Z) (w : World D) :
  fst (DeviceIntrfStart pDev k a w) = false.
Proof.
  destruct (Busy (dev w)) eqn:HB.
  - rewrite (start_when_busy pDev k a w HB). reflexivity.
  - pose proof (start_when_free pDev k a w HB) as E. cbn zeta in E.
    destruct k.
    + specialize (HRx (set_Busy true (dev w)) a eq_refl).
      destruct (StartRx pDev (set_Busy true (dev w)) a) as [r d'].
      cbn in HRx; subst r. rewrite E. reflexivity.
    + specialize (HTx (set_Busy true (dev w)) a eq_refl).
      destruct (StartTx pDev (set_Busy true (dev w)) a) as [r d'].
      cbn in HTx; subst r. rewrite E. reflexivity.
Qed.

Lemma self_checking_start_never_succeeds_witness :
  fst (StartRx ops_selfcheck (dev w0) 0x50) = true /\
  fst (DeviceIntrfStart ops_selfcheck SRx 0x50 w0) = false.
Proof.
  split; [reflexivity |].
  apply self_checking_start_never_succeeds.
  - intros d a H. cbn. rewrite H. reflexivity.
  - intros d a H. cbn. rewrite H. reflexivity.
Defined.

(** Disable past zero: while the count before the call is at most 1
    (and stays at least INT_MIN, so the 32-bit decrement does not wrap),
    every DeviceIntrfDisable invokes the Disable slot again and lowers the
    count, which goes below 0 with no guard. *)
Theorem disable_past_zero {D} (pDev : DEVINTRF_FN D)
  (HD : keeps_EnCnt (Disable pDev)) (n : nat) (w : World D)
  (Hc : EnCnt (dev w) <= 1) (Hr : INT_MIN <= EnCnt (dev w) - Z.of_nat n) :
  let w' := snd (run_power pDev (repeat PDisable n) w) in
  EnCnt (dev w') = EnCnt (dev w) - Z.of_nat n /\
  calls w' = calls w ++ repeat CDisable n.
Proof.
  revert w Hc Hr; induction n as [|n IH]; intros w Hc Hr.
  - cbn. rewrite app_nil_r. split; [lia | reflexivity].
  - cbv zeta. cbn [repeat]. rewrite run_power_cons. cbn [power_call].
    destruct (disable_step_in pDev HD w) as [E1 C1]; [int_consts; lia |].
    destruct (IH (snd (DeviceIntrfDisable pDev w))) as [E2 C2]; [lia | lia |].
    rewrite E2, C2, E1, C1.
    replace (EnCnt (dev w) - 1 <? 1) with true by (symmetry; apply Z.ltb_lt; lia).
    rewrite <- app_assoc. split; [lia | reflexivity].
Qed.

Lemma disable_past_zero_witness :
  EnCnt (dev w0) <= 1 /\ INT_MIN <= EnCnt (dev w0) - Z.of_nat 3 /\
  calls (snd (run_power ops_bus (repeat PDisable 3) w0)) = [CDisable; CDisable; CDisable].
Proof.
  split; [cbn; lia | split; [apply Z.leb_le; reflexivity |]].
  destruct (disable_past_zero ops_bus (fun d => eq_refl) 3 w0 ltac:(cbn; lia)
              ltac:(apply Z.leb_le; reflexivity))
    as [_ C]. rewrite C. reflexivity.
Defined.

Lemma enables_below_zero {D} (pDev : DEVINTRF_FN D)
  (HE : keeps_EnCnt (Enable pDev)) (j : nat) (w : World D) :
  INT_MIN <= EnCnt (dev w) -> EnCnt (dev w) + Z.of_nat j <= 0 ->
  let w' := snd (run_power pDev (repeat PEnable j) w) in
  EnCnt (dev w') = EnCnt (dev w) + Z.of_nat j /\ calls w' = calls w.
Proof.
  revert w; induction j as [|j IH]; intros w Hm Hc.
  - cbn. split; [lia | reflexivity].
  - cbv zeta. cbn [repeat]. rewrite run_power_cons. cbn [power_call].
    destruct (enable_step_in pDev HE w) as [E1 C1]; [int_consts; lia |].
    destruct (IH (snd (DeviceIntrfEnable pDev w))) as [E2 C2]; [lia | lia |].
    rewrite E2, C2, E1, C1.
    replace (EnCnt (dev w) + 1 =? 1) with false by (symmetry; apply Z.eqb_neq; lia).
    rewrite app_nil_r. split; [lia | reflexivity].
Qed.

(** After m Disables too many (count -m), the next m Enables only bring
    the count back to 0 and invoke no slot; the hardware is powered on
    again only by the (m+1)-th Enable. The count -m is an [int], so
    m <= 2^31. *)
Theorem enable_after_overdisable {D} (pDev : DEVINTRF_FN D)
  (HE : keeps_EnCnt (Enable pDev)) (m : nat) (w : World D)
  (Hc : EnCnt (dev w) = - Z.of_nat m) (Hm : INT_MIN <= - Z.of_nat m) :
  let w1 := snd (run_power pDev (repeat PEnable m) w) in
  let w2 := snd (run_power pDev [PEnable] w1) in
  calls w1 = calls w /\ EnCnt (dev w1) = 0 /\
  calls w2 = calls w1 ++ [CEnable] /\ EnCnt (dev w2) = 1.
Proof.
  intros w1 w2.
  destruct (enables_below_zero pDev HE m w) as [E1 C1]; [lia | lia |].
  fold w1 in E1, C1.
  unfold w2. rewrite run_power_one. cbn [power_call].
  destruct (enable_step_in pDev HE w1) as [E C];
    [rewrite E1, Hc; int_consts; lia |].
  rewrite E, C, E1, Hc.
  replace (- Z.of_nat m + Z.of_nat m + 1 =? 1) with true
    by (symmetry; apply Z.eqb_eq; lia).
  repeat split; [exact C1 | lia | lia].
Qed.

Lemma enable_after_overdisable_witness :
  EnCnt (dev (snd (run_power ops_bus [PDisable; PDisable] w0))) = - Z.of_nat 2 /\
  INT_MIN <= - Z.of_nat 2 /\
  calls (snd (run_power ops_bus (repeat PEnable 2)
      (snd (run_power ops_bus [PDisable; PDisable] w0))))
    = calls (snd (run_power ops_bus [PDisable; PDisable] w0)).
Proof.
  split; [reflexivity | split; [apply Z.leb_le; reflexivity |]].
  destruct (enable_after_overdisable ops_bus (fun d => eq_refl) 2
              (snd (run_power ops_bus [PDisable; PDisable] w0)) eq_refl
              ltac:(apply Z.leb_le; reflexivity)) as [C1 _].
  exact C1.
Defined.

Lemma enable_noop {D} (pDev : DEVINTRF_FN D) (w : World D) :
  int_wrap (EnCnt (dev w) + 1) <> 1 ->
  DeviceIntrfEnable pDev w =
  (tt, upd_dev (set_EnCnt (int_wrap (EnCnt (dev w) + 1))) w).
Proof.
  intros H. unfold DeviceIntrfEnable, AtomicInc_EnCnt, bind. cbn -[set_EnCnt int_wrap].
  destruct (Z.eqb_spec (int_wrap (EnCnt (dev w) + 1)) 1); [congruence | reflexivity].
Qed.

Lemma disable_noop {D} (pDev : DEVINTRF_FN D) (w : World D) :
  1 <= int_wrap (EnCnt (dev w) - 1) ->
  DeviceIntrfDisable pDev w =
  (tt, upd_dev (set_EnCnt (int_wrap (EnCnt (dev w) - 1))) w).
Proof.
  intros H. unfold DeviceIntrfDisable, AtomicDec_EnCnt, bind. cbn -[set_EnCnt int_wrap].
  destruct (Z.ltb_spec (int_wrap (EnCnt (dev w) - 1)) 1); [lia | reflexivity].
Qed.

Lemma int_wrap_succ_pred (c : Z) :
  INT_MIN <= c <= INT_MAX -> int_wrap (int_wrap (c + 1) - 1) = c.
Proof.
  intros Hc. destruct (Z.eq_dec c INT_MAX) as [-> | Hne].
  - rewrite int_wrap_max_succ, int_wrap_min_pred. reflexivity.
  - rewrite (int_wrap_id (c + 1)) by (int_consts; lia).
    rewrite int_wrap_id by (int_consts; lia). lia.
Qed.

Lemma int_wrap_pred_succ (c : Z) :
  INT_MIN <= c <= INT_MAX -> int_wrap (int_wrap (c - 1) + 1) = c.
Proof.
  intros Hc. destruct (Z.eq_dec c INT_MIN) as [-> | Hne].
  - rewrite int_wrap_min_pred, int_wrap_max_succ. reflexivity.
  - rewrite (int_wrap_id (c - 1)) by (int_consts; lia).
    rewrite int_wrap_id by (int_consts; lia). lia.
Qed.

Lemma int_wrap_succ_ne_1 (c : Z) :
  1 <= c <= INT_MAX -> int_wrap (c + 1) <> 1.
Proof.
  intros Hc. destruct (Z.eq_dec c INT_MAX) as [-> | Hne].
  - rewrite int_wrap_max_succ. discriminate.
  - rewrite int_wrap_id by (int_consts; lia). lia.
Qed.

(** Nested users: on a handle already enabled (count >= 1), an Enable
    followed by a Disable leaves the whole state, log included, exactly as
    it was; with count >= 2 a Disable followed by an Enable does too. This
    holds for every [int] count, INT_MAX included, where the Enable wraps
    the count to INT_MIN and the Disable wraps it back. *)
Theorem nested_enable_disable_invisible {D} (pDev : DEVINTRF_FN D)
  (w : World D) :
  (1 <= EnCnt (dev w) <= INT_MAX ->
   snd (run_power pDev [PEnable; PDisable] w) = w) /\
  (2 <= EnCnt (dev w) <= INT_MAX ->
   snd (run_power pDev [PDisable; PEnable] w) = w).
Proof.
  destruct w as [[p i e b m c] l]; cbn [dev EnCnt].
  split; intros Hc; rewrite run_power_cons; cbn [power_call].
  - rewrite enable_noop by (apply int_wrap_succ_ne_1; exact Hc). cbn [snd].
    rewrite run_power_one; cbn [power_call].
    rewrite disable_noop
      by (cbn -[int_wrap]; rewrite int_wrap_succ_pred by (int_consts; lia); lia).
    cbn -[int_wrap]. rewrite int_wrap_succ_pred by (int_consts; lia).
    reflexivity.
  - rewrite disable_noop
      by (cbn -[int_wrap]; rewrite int_wrap_id by (int_consts; lia); lia).
    cbn [snd]. rewrite run_power_one; cbn [power_call].
    rewrite enable_noop
      by (cbn -[int_wrap]; rewrite int_wrap_pred_succ by (int_consts; lia); lia).
    cbn -[int_wrap]. rewrite int_wrap_pred_succ by (int_consts; lia).
    reflexivity.
Qed.

Lemma nested_enable_disable_invisible_witness :
  let w1 := snd (run_power ops_bus [PEnable] w0) in
  1 <= EnCnt (dev w1) <= INT_MAX /\
  snd (run_power ops_bus [PEnable; PDisable] w1) = w1.
Proof.
  cbv zeta. split; [split; apply Z.leb_le; reflexivity |].
  apply (proj1 (nested_enable_disable_invisible ops_bus _)).
  split; apply Z.leb_le; reflexivity.
Defined.
